(** * Session coordination of [src/context/AuthContext.tsx]

    A shallow embedding of the authentication context: the per-provider
    React state, the module-level initialisation guard, the one-time
    session probe [checkSession], the debounced [onAuthStateChange]
    handler, [login], [logout] and the [useAuth] hook.

    Asynchronous functions are cut at their [await]: the part before it
    and the continuation after it are separate functions, and the
    continuation receives how the awaited promise settled.  The event
    loop is a step function over explicit events. *)

From Stdlib Require Import ZArith String List Bool Lia.
From stdpp Require Import base option list gmap strings.

Local Open Scope Z_scope.

(** ** Data model *)

(** [User] of [../types], as the three object literals of the file build it. *)
Record User := mkUser {
  id : string;
  username : string;
  password : string;
  isAdmin : bool;
  createdAt : string
}.

(** The [session.user] object of the backend client.  [email] and
    [created_at] may be missing ([undefined]). *)
Record SessionUser := mkSessionUser {
  su_id : string;
  email : option string;
  created_at : option string
}.

(** A backend session; [user] is tested for presence by the code. *)
Record Session := mkSession {
  user : option SessionUser;
  access_token : string
}.

(** The [error] member of a backend response. *)
Record AuthError := mkAuthError { message : string }.

(** [{ data: { session }, error }], the shape returned by [getSession]
    and [signInWithPassword]. *)
Record AuthResponse := mkAuthResponse {
  session : option Session;
  error : option AuthError
}.

(** [{ error }], the shape returned by [signOut]. *)
Record SignOutResponse := mkSignOutResponse { signOutError : option AuthError }.

(** A value caught by [catch (error)]: an [Error] instance with its
    message, or anything else. *)
Inductive Thrown :=
| ThrownError (msg : string)
| ThrownOther.

(** How an awaited promise settles. *)
Inductive Settled (A : Type) :=
| Fulfilled (a : A)
| Rejected (e : Thrown).
Arguments Fulfilled {A} a.
Arguments Rejected {A} e.

(** The five [useState] cells of one [AuthProvider]. *)
Record State := mkState {
  currentUser : option User;
  authToken : option string;
  isLoading : bool;
  authError : option string;
  lastTokenRefresh : Z
}.

(** Initial values of the [useState] calls (lines 36-40). *)
Definition initialState : State :=
  {| currentUser := None; authToken := None; isLoading := true;
     authError := None; lastTokenRefresh := 0 |}.

Definition setCurrentUser (v : option User) (st : State) : State :=
  {| currentUser := v; authToken := authToken st; isLoading := isLoading st;
     authError := authError st; lastTokenRefresh := lastTokenRefresh st |}.

Definition setAuthToken (v : option string) (st : State) : State :=
  {| currentUser := currentUser st; authToken := v; isLoading := isLoading st;
     authError := authError st; lastTokenRefresh := lastTokenRefresh st |}.

Definition setIsLoading (v : bool) (st : State) : State :=
  {| currentUser := currentUser st; authToken := authToken st; isLoading := v;
     authError := authError st; lastTokenRefresh := lastTokenRefresh st |}.

Definition setAuthError (v : option string) (st : State) : State :=
  {| currentUser := currentUser st; authToken := authToken st;
     isLoading := isLoading st; authError := v;
     lastTokenRefresh := lastTokenRefresh st |}.

Definition setLastTokenRefresh (v : Z) (st : State) : State :=
  {| currentUser := currentUser st; authToken := authToken st;
     isLoading := isLoading st; authError := authError st;
     lastTokenRefresh := v |}.

(** ** JavaScript helpers *)

(** [s || fallback] on a possibly missing string: the empty string and
    [undefined] are both falsy. *)
Definition orElse (s : option string) (fallback : string) : string :=
  match s with
  | Some EmptyString => fallback
  | Some v => v
  | None => fallback
  end.

(** [session.user.email === 'droweder@gmail.com'] *)
Definition privilegedAccount : string := "droweder@gmail.com".

Definition strictEq (s : option string) (lit : string) : bool :=
  match s with
  | Some v => String.eqb v lit
  | None => false
  end.

(** The object literal of lines 77-83, repeated at 124-130 and 168-174.
    [nowIso] is the value of [new Date().toISOString()]. *)
Definition userOfSession (nowIso : string) (u : SessionUser) : User :=
  {| id := su_id u;
     username := orElse (email u) "";
     password := "";
     isAdmin := strictEq (email u) privilegedAccount;
     createdAt := orElse (created_at u) nowIso |}.

(** [setCurrentUser(user); setAuthToken(session.access_token);
    setLastTokenRefresh(Date.now())] *)
Definition adoptSession (now : Z) (nowIso : string) (s : Session)
    (u : SessionUser) (st : State) : State :=
  setLastTokenRefresh now
    (setAuthToken (Some (access_token s))
       (setCurrentUser (Some (userOfSession nowIso u)) st)).

(** [session && session.user]: both objects are present. *)
Definition liveSession (o : option Session) : option (Session * SessionUser) :=
  match o with
  | Some s =>
      match user s with
      | Some u => Some (s, u)
      | None => None
      end
  | None => None
  end.

(** [error instanceof Error ? error.message : 'Erro desconhecido'] *)
Definition thrownMessage (e : Thrown) : string :=
  match e with
  | ThrownError m => m
  | ThrownOther => "Erro desconhecido"
  end.

(** ** The initial probe, [checkSession] (lines 44-108) *)

(** The module-level flags of lines 7-10.  A promise is represented by
    its presence: the code only tests and awaits it. *)
Record Guard := mkGuard {
  hasCheckedSession : bool;
  isCheckingSession : bool;
  sessionCheckPromise : option unit;
  hasInitialSessionChecked : bool
}.

Definition initialGuard : Guard :=
  {| hasCheckedSession := false; isCheckingSession := false;
     sessionCheckPromise := None; hasInitialSessionChecked := false |}.

(** Body of the inner async function after its [await] (lines 71-98):
    the [try] block from the destructuring on, and the [catch] block.
    The first branch is [session && session.user && !error]; in the
    [else] branch only a present [error] writes to the state. *)
Definition probeContinuation (now : Z) (nowIso : string)
    (r : Settled AuthResponse) (st : State) : State :=
  match r with
  | Fulfilled resp =>
      match liveSession (session resp), error resp with
      | Some (s, u), None => adoptSession now nowIso s u st
      | _, Some e =>
          setAuthError (Some ("Erro de sessão: " +:+ message e)) st
      | None, None => st
      end
  | Rejected e =>
      setAuthError (Some ("Erro de conexão: " +:+ thrownMessage e)) st
  end.

(** The [finally] block (lines 99-103). *)
Definition probeFinally (g : Guard) : Guard :=
  {| hasCheckedSession := hasCheckedSession g;
     isCheckingSession := false;
     sessionCheckPromise := None;
     hasInitialSessionChecked := true |}.

(** The process: the guard shared by every provider, the state of each
    mounted provider, and the suspended pieces of [checkSession].
    - [probe]: the provider whose inner function is suspended at the
      retried [getSession] call (line 71);
    - [awaiting]: providers whose [checkSession] is suspended at
      [await sessionCheckPromise] (lines 60 and 106);
    - [ready]: those continuations once the promise has settled;
    - [fetchCalls]: how many times [withAuthRetry(getSession)] was
      invoked (a counter of the model, not a variable of the code). *)
Record World := mkWorld {
  guard : Guard;
  states : gmap nat State;
  probe : option nat;
  awaiting : list nat;
  ready : list nat;
  fetchCalls : nat
}.

Definition initialWorld : World :=
  {| guard := initialGuard; states := ∅; probe := None;
     awaiting := []; ready := []; fetchCalls := 0%nat |}.

(** The state of provider [i]; a provider that has not been written to
    holds the [useState] initial values. *)
Definition instState (i : nat) (w : World) : State :=
  default initialState (states w !! i).

Definition updState (i : nat) (f : State -> State) (w : World) : World :=
  {| guard := guard w; states := <[i := f (instState i w)]> (states w);
     probe := probe w; awaiting := awaiting w; ready := ready w;
     fetchCalls := fetchCalls w |}.

(** [checkSession()] called from the effect of provider [i], up to its
    first suspension (or its return). *)
Definition checkSession (i : nat) (w : World) : World :=
  if hasInitialSessionChecked (guard w) then
    updState i (setIsLoading false) w
  else if isCheckingSession (guard w) then
    updState i (setIsLoading false) w
  else
    match sessionCheckPromise (guard w) with
    | Some _ =>
        {| guard := guard w; states := states w; probe := probe w;
           awaiting := awaiting w ++ [i]; ready := ready w;
           fetchCalls := fetchCalls w |}
    | None =>
        let w1 := updState i (setAuthError None) w in
        {| guard := {| hasCheckedSession := hasCheckedSession (guard w);
                       isCheckingSession := true;
                       sessionCheckPromise := Some tt;
                       hasInitialSessionChecked :=
                         hasInitialSessionChecked (guard w) |};
           states := states w1;
           probe := Some i;
           awaiting := awaiting w ++ [i];
           ready := ready w;
           fetchCalls := S (fetchCalls w) |}
    end.

(** The retried [getSession] call settles: the inner function resumes,
    runs to its end, and its promise is fulfilled, which makes every
    [await sessionCheckPromise] ready to resume. *)
Definition probeSettles (now : Z) (nowIso : string)
    (r : Settled AuthResponse) (w : World) : World :=
  match probe w with
  | None => w
  | Some i =>
      let w1 := updState i (probeContinuation now nowIso r) w in
      {| guard := probeFinally (guard w);
         states := states w1;
         probe := None;
         awaiting := [];
         ready := ready w ++ awaiting w;
         fetchCalls := fetchCalls w |}
  end.

Fixpoint removeFirst (i : nat) (l : list nat) : list nat :=
  match l with
  | [] => []
  | j :: l' => if Nat.eqb i j then l' else j :: removeFirst i l'
  end.

(** A ready [checkSession] resumes after its [await]:
    [setIsLoading(false)] (lines 61 and 107). *)
Definition resume (i : nat) (w : World) : World :=
  if existsb (Nat.eqb i) (ready w) then
    let w1 := updState i (setIsLoading false) w in
    {| guard := guard w; states := states w1; probe := probe w;
       awaiting := awaiting w; ready := removeFirst i (ready w);
       fetchCalls := fetchCalls w |}
  else w.

(** What the event loop can run next. *)
Inductive Event :=
| Mount (i : nat)
| ProbeSettles (now : Z) (nowIso : string) (r : Settled AuthResponse)
| Resume (i : nat).

Definition step (w : World) (e : Event) : World :=
  match e with
  | Mount i => checkSession i w
  | ProbeSettles now nowIso r => probeSettles now nowIso r w
  | Resume i => resume i w
  end.

Definition run (evs : list Event) (w : World) : World :=
  fold_left step evs w.

(** Number of [checkSession()] calls in a schedule. *)
Fixpoint mounts (evs : list Event) : nat :=
  match evs with
  | [] => 0%nat
  | Mount _ :: evs' => S (mounts evs')
  | _ :: evs' => mounts evs'
  end.

(** ** [login] (lines 151-188) *)

(** Up to the [await]: [setAuthError(null)]. *)
Definition loginBegin (st : State) : State := setAuthError None st.

(** After the [await]: the rest of the [try] block, and the [catch]. *)
Definition loginContinuation (now : Z) (nowIso : string)
    (r : Settled AuthResponse) (st : State) : State * bool :=
  match r with
  | Fulfilled resp =>
      match error resp with
      | Some e =>
          (setAuthError (Some ("Erro no login: " +:+ message e)) st, false)
      | None =>
          match liveSession (session resp) with
          | Some (s, u) => (adoptSession now nowIso s u st, true)
          | None => (st, false)
          end
      end
  | Rejected e =>
      (setAuthError (Some ("Erro de conexão: " +:+ thrownMessage e)) st, false)
  end.

(** [signInWithPassword] stands for the retried backend call: what
    [withAuthRetry(() => supabase.auth.signInWithPassword(...))] settles
    to for the given credentials. *)
Definition login (signInWithPassword : string -> string -> Settled AuthResponse)
    (now : Z) (nowIso : string) (email password : string) (st : State)
    : State * bool :=
  loginContinuation now nowIso (signInWithPassword email password)
    (loginBegin st).

(** ** [logout] (lines 190-201) *)

(** The four setters follow the [await] inside the [try] block; the
    [catch] block only logs. *)
Definition logout (r : Settled SignOutResponse) (st : State) : State :=
  match r with
  | Fulfilled _ =>
      setLastTokenRefresh 0
        (setAuthToken None (setCurrentUser None (setAuthError None st)))
  | Rejected _ => st
  end.

(** ** The change subscription (lines 113-148) *)

(** A scheduled [setTimeout] callback: when it is due and the
    [(event, session)] pair its closure captured. *)
Record Timer := mkTimer {
  deadline : Z;
  timerEvent : string;
  timerSession : option Session
}.

(** One provider with its subscription: its state, the single timer
    variable [authStateChangeTimeout], and a counter of the model for
    the callbacks that ran. *)
Record Subscriber := mkSubscriber {
  view : State;
  authStateChangeTimeout : option Timer;
  applied : nat
}.

Definition throttle : Z := 500.

(** The callback passed to [setTimeout] (lines 119-140), run at clock
    time [now]. *)
Definition timerCallback (now : Z) (nowIso : string)
    (sess : option Session) (st : State) : State :=
  let st1 := setAuthError None st in
  match liveSession sess with
  | Some (s, u) => adoptSession now nowIso s u st1
  | None =>
      setLastTokenRefresh 0 (setAuthToken None (setCurrentUser None st1))
  end.

(** The handler given to [onAuthStateChange], called at clock time [t]:
    [clearTimeout] drops the scheduled callback, [setTimeout] schedules
    a new one. *)
Definition onAuthStateChange (t : Z) (event : string)
    (sess : option Session) (sb : Subscriber) : Subscriber :=
  {| view := view sb;
     authStateChangeTimeout :=
       Some {| deadline := t + throttle; timerEvent := event;
               timerSession := sess |};
     applied := applied sb |}.

(** The event loop reaches its timer phase at clock time [t]: a
    scheduled callback runs once its delay has elapsed. *)
Definition runTimers (t : Z) (nowIso : string) (sb : Subscriber) : Subscriber :=
  match authStateChangeTimeout sb with
  | Some tm =>
      if deadline tm <=? t then
        {| view := timerCallback t nowIso (timerSession tm) (view sb);
           authStateChangeTimeout := None;
           applied := S (applied sb) |}
      else sb
  | None => sb
  end.

(** The effect's cleanup (lines 145-148). *)
Definition cleanup (sb : Subscriber) : Subscriber :=
  {| view := view sb; authStateChangeTimeout := None; applied := applied sb |}.

(** What happens to a subscriber, with the clock time it happens at. *)
Inductive Action :=
| Notify (t : Z) (event : string) (sess : option Session)
| Tick (t : Z) (nowIso : string).

Definition actionTime (a : Action) : Z :=
  match a with
  | Notify t _ _ => t
  | Tick t _ => t
  end.

Definition act (sb : Subscriber) (a : Action) : Subscriber :=
  match a with
  | Notify t event sess => onAuthStateChange t event sess sb
  | Tick t nowIso => runTimers t nowIso sb
  end.

Definition play (l : list Action) (sb : Subscriber) : Subscriber :=
  fold_left act l sb.

(** The payload of the last notification of a trace. *)
Fixpoint lastNotify (l : list Action) (d : option (Z * option Session))
    : option (Z * option Session) :=
  match l with
  | [] => d
  | Notify t _ sess :: l' => lastNotify l' (Some (t, sess))
  | Tick _ _ :: l' => lastNotify l' d
  end.

(** ** [useAuth] and the provided value (lines 23-29, 229-237) *)

(** The data members of [AuthContextType]; [login] and [logout] are the
    closures modelled above. *)
Record AuthContextType := mkAuthContext {
  ctxCurrentUser : option User;
  ctxIsAuthenticated : bool;
  ctxAuthToken : option string;
  ctxAuthError : option string
}.

(** The [value] of [AuthContext.Provider]; [!!currentUser] is the
    presence of the user object. *)
Definition contextValue (st : State) : AuthContextType :=
  {| ctxCurrentUser := currentUser st;
     ctxIsAuthenticated := bool_decide (is_Some (currentUser st));
     ctxAuthToken := authToken st;
     ctxAuthError := authError st |}.

(** [useContext(AuthContext)] yields [undefined] (the default of
    [createContext]) outside a provider; [throw] is the left injection. *)
Definition useAuth (context : option AuthContextType)
    : Thrown + AuthContextType :=
  match context with
  | None => inl (ThrownError "useAuth must be used within an AuthProvider")
  | Some c => inr c
  end.

(** ** The rendered output (lines 203-241) *)

(** The [onClick] of the manual-login button (lines 213-216). *)
Definition manualLogin (st : State) : State :=
  setIsLoading false (setAuthError None st).

(** What the provider returns: the loading screen, with the error
    banner and its button when there is one, or the context provider
    around the children. *)
Inductive Rendered :=
| LoadingScreen (banner : option string)
| Provider (value : AuthContextType).

(** [{authError && (...)}]: [null] and the empty string show nothing. *)
Definition banner (e : option string) : option string :=
  match e with
  | Some EmptyString => None
  | Some m => Some m
  | None => None
  end.

Definition render (st : State) : Rendered :=
  if isLoading st then LoadingScreen (banner (authError st))
  else Provider (contextValue st).

(** ** The state writes of one provider *)

(** Every group of setter calls of the file that runs without an
    [await] in between, with the values it reads from outside the
    state. No setter is given a function of the previous state. *)
Inductive Write :=
| WLoaded
| WProbeBegin
| WProbeResume (now : Z) (nowIso : string) (r : Settled AuthResponse)
| WChange (now : Z) (nowIso : string) (sess : option Session)
| WLoginBegin
| WLoginResume (now : Z) (nowIso : string) (r : Settled AuthResponse)
| WLogoutResume (r : Settled SignOutResponse)
| WManual.

Definition write (st : State) (w : Write) : State :=
  match w with
  | WLoaded => setIsLoading false st
  | WProbeBegin => setAuthError None st
  | WProbeResume now nowIso r => probeContinuation now nowIso r st
  | WChange now nowIso sess => timerCallback now nowIso sess st
  | WLoginBegin => loginBegin st
  | WLoginResume now nowIso r => fst (loginContinuation now nowIso r st)
  | WLogoutResume r => logout r st
  | WManual => manualLogin st
  end.

Definition writes (l : list Write) (st : State) : State :=
  fold_left write l st.

(** * Vocabulary of the statements *)

(** Concrete sessions and states for the examples. *)

Definition alice : SessionUser :=
  {| su_id := "u-1"; email := Some "a@b.com";
     created_at := Some "2024-01-01T00:00:00.000Z" |}.

Definition owner : SessionUser :=
  {| su_id := "u-0"; email := Some "droweder@gmail.com"; created_at := None |}.

Definition aliceSession : Session :=
  {| user := Some alice; access_token := "tok-a" |}.

Definition ownerSession : Session :=
  {| user := Some owner; access_token := "tok-o" |}.

Definition epochIso : string := "1970-01-01T00:00:00.000Z".

(** A provider in which alice is signed in. *)
Definition signedIn : State :=
  {| currentUser := Some (userOfSession epochIso alice);
     authToken := Some "tok-a"; isLoading := false;
     authError := None; lastTokenRefresh := 1700 |}.

(** The stored user of [st] was built from [u] and carries the
    privilege flag exactly for the privileged account. *)
Definition privilegeRule (u : SessionUser) (st : State) : Prop :=
  ∃ usr : User,
    currentUser st = Some usr
    ∧ (isAdmin usr = true ↔ email u = Some "droweder@gmail.com").

(** The message [login] stores when the sign-in fails. *)
Definition loginFailureMessage (r : Settled AuthResponse) : option string :=
  match r with
  | Fulfilled resp =>
      match error resp with
      | Some e => Some ("Erro no login: " +:+ message e)
      | None => None
      end
  | Rejected e => Some ("Erro de conexão: " +:+ thrownMessage e)
  end.

(** The sign-in reported an error or threw. *)
Definition signInFailed (r : Settled AuthResponse) : Prop :=
  match r with
  | Fulfilled resp => is_Some (error resp)
  | Rejected _ => True
  end.

(** A process whose probe found alice's session. *)
Definition settledWorld : World :=
  run [Mount 0%nat;
       ProbeSettles 1700 epochIso
         (Fulfilled {| session := Some aliceSession; error := None |});
       Resume 0%nat] initialWorld.

(** No session fetch has been issued and nothing is pending. *)
Definition unprobed (w : World) : Prop :=
  fetchCalls w = 0%nat
  ∧ probe w = None
  ∧ isCheckingSession (guard w) = false
  ∧ sessionCheckPromise (guard w) = None
  ∧ hasInitialSessionChecked (guard w) = false.

(** One session fetch has been issued, and the guard records it: the
    probe is in flight or has completed. *)
Definition probedOnce (w : World) : Prop :=
  fetchCalls w = 1%nat
  ∧ (isCheckingSession (guard w) = true
     ∨ hasInitialSessionChecked (guard w) = true).

(** The two in-flight indicators of the guard are written together:
    the promise variable is set exactly while [isCheckingSession] is. *)
Definition guardCoherent (w : World) : Prop :=
  sessionCheckPromise (guard w)
  = if isCheckingSession (guard w) then Some tt else None.

(** The action happens inside the window of 500 ms opened at [t0]. *)
Definition inWindow (t0 : Z) (a : Action) : Prop :=
  t0 ≤ actionTime a < t0 + 500.

Definition isTick (a : Action) : Prop :=
  match a with
  | Tick _ _ => True
  | Notify _ _ _ => False
  end.

(** The token is present exactly when the user is, and a provider
    without a user has its refresh timestamp at zero. *)
Definition tokenConsistent (st : State) : Prop :=
  (currentUser st = None ↔ authToken st = None)
  ∧ (currentUser st = None → lastTokenRefresh st = 0).

(** A stored user holds no password, and its privilege flag agrees
    with its user name. *)
Definition wellFormedUser (usr : User) : Prop :=
  password usr = ""
  ∧ (isAdmin usr = true ↔ username usr = "droweder@gmail.com").

Definition storesWellFormedUser (st : State) : Prop :=
  ∀ usr : User, currentUser st = Some usr → wellFormedUser usr.

(** The session and user that [login] adopts, if any: the response has
    no error and carries a session with its user. *)
Definition adopted (r : Settled AuthResponse)
    : option (Session * SessionUser) :=
  match r with
  | Fulfilled resp =>
      match error resp with
      | Some _ => None
      | None => liveSession (session resp)
      end
  | Rejected _ => None
  end.

(** The context of a provider without a user, token or error. *)
Definition anonymousContext : AuthContextType :=
  {| ctxCurrentUser := None; ctxIsAuthenticated := false;
     ctxAuthToken := None; ctxAuthError := None |}.

(** The phases of the process, read from the guard. *)
Inductive Phase := Uninitialized | Initializing | Completed.

Definition phase (w : World) : Phase :=
  if hasInitialSessionChecked (guard w) then Completed
  else if isCheckingSession (guard w) then Initializing
  else Uninitialized.

Definition phaseRank (p : Phase) : nat :=
  match p with
  | Uninitialized => 0
  | Initializing => 1
  | Completed => 2
  end.

(** The rest of the process agrees with the phase. *)
Definition wellPhased (w : World) : Prop :=
  match phase w with
  | Uninitialized =>
      fetchCalls w = 0%nat ∧ probe w = None
      ∧ sessionCheckPromise (guard w) = None
  | Initializing =>
      fetchCalls w = 1%nat ∧ is_Some (probe w)
      ∧ sessionCheckPromise (guard w) = Some tt
  | Completed =>
      fetchCalls w = 1%nat ∧ probe w = None
      ∧ isCheckingSession (guard w) = false
      ∧ sessionCheckPromise (guard w) = None
  end.

(** The provider whose [checkSession] call comes first, starting from
    a provider already known. *)
Fixpoint firstMountFrom (o : option nat) (evs : list Event) : option nat :=
  match o, evs with
  | Some _, _ => o
  | None, [] => None
  | None, Mount i :: _ => Some i
  | None, _ :: evs' => firstMountFrom None evs'
  end.

Definition firstMount (evs : list Event) : option nat :=
  firstMountFrom None evs.

(** Provider [i] has left the loading screen, or its [checkSession] is
    suspended on a probe in flight, or is ready to resume. *)
Definition settledOrPending (i : nat) (w : World) : Prop :=
  isLoading (instState i w) = false
  ∨ (In i (awaiting w) ∧ probe w ≠ None)
  ∨ In i (ready w).

(** Number of notifications in a trace. *)
Fixpoint notifications (l : list Action) : nat :=
  match l with
  | [] => 0%nat
  | Notify _ _ _ :: l' => S (notifications l')
  | Tick _ _ :: l' => notifications l'
  end.

(** Number of scheduled callbacks: zero or one. *)
Definition scheduled (sb : Subscriber) : nat :=
  match authStateChangeTimeout sb with
  | Some _ => 1%nat
  | None => 0%nat
  end.

(** A change event that is left alone until its callback has run: it
    arrives at [evTime] and the timer phase runs at [evFired]. *)
Record SpacedEvent := mkSpacedEvent {
  evTime : Z;
  evName : string;
  evSession : option Session;
  evFired : Z;
  evFiredIso : string
}.

Definition spacedTrace (l : list SpacedEvent) : list Action :=
  flat_map (λ e, [Notify (evTime e) (evName e) (evSession e);
                  Tick (evFired e) (evFiredIso e)]) l.

Definition applySpaced (st : State) (e : SpacedEvent) : State :=
  timerCallback (evFired e) (evFiredIso e) (evSession e) st.

(** Two states of a provider that differ at most in the loading flag. *)
Definition sameView (a b : State) : Prop :=
  currentUser a = currentUser b
  ∧ authToken a = authToken b
  ∧ authError a = authError b
  ∧ lastTokenRefresh a = lastTokenRefresh b.

(** Only provider [o], the one that started the probe, may hold a user
    or a token; without such a provider the process is uninitialised. *)
Definition ownedBy (o : option nat) (w : World) : Prop :=
  (o = None → phase w = Uninitialized)
  ∧ (is_Some o → phase w ≠ Uninitialized)
  ∧ (∀ k : nat, probe w = Some k → o = Some k)
  ∧ (∀ j : nat, o ≠ Some j →
       currentUser (instState j w) = None ∧ authToken (instState j w) = None).

(** Every timer phase of the trace comes less than 500 ms after the
    latest notification before it; [t] is the time of the notification
    that precedes the trace. *)
Fixpoint restless (t : Z) (l : list Action) : Prop :=
  match l with
  | [] => True
  | Notify t' _ _ :: l' => restless t' l'
  | Tick t' _ :: l' => t' < t + 500 ∧ restless t l'
  end.

(** * Properties *)

(** ** Setters commute with the projections *)

Lemma instState_updState_eq i f w :
  instState i (updState i f w) = f (instState i w).
Proof. unfold instState, updState; simpl. by rewrite lookup_insert_eq. Qed.

Lemma instState_updState_ne i j f w :
  i ≠ j → instState j (updState i f w) = instState j w.
Proof.
  intros Hne. unfold instState, updState; simpl.
  by rewrite lookup_insert_ne.
Qed.

(** ** [useAuth] *)

(** C10. Outside a provider, where the context value is undefined,
    [useAuth] throws an [Error]; inside a provider it returns the
    provided context object. *)
Theorem useAuth_throws_outside_provider :
  useAuth None = inl (ThrownError "useAuth must be used within an AuthProvider")
  ∧ (∀ c : AuthContextType, useAuth (Some c) = inr c)
  ∧ (∀ st : State, useAuth (Some (contextValue st)) = inr (contextValue st)).
Proof. repeat split. Qed.

(** ** [logout] *)

(** C1, as stated, fails: when the retried sign-out call throws, the
    provider in which alice is signed in keeps its user, its token and
    its refresh timestamp. *)
Lemma logout_throw_keeps_state :
  let st' := logout (Rejected (ThrownError "Failed to fetch")) signedIn in
  currentUser st' = Some (userOfSession epochIso alice)
  ∧ authToken st' = Some "tok-a"
  ∧ lastTokenRefresh st' = 1700
  ∧ ¬ (currentUser st' = None ∧ authToken st' = None
       ∧ lastTokenRefresh st' = 0).
Proof.
  simpl. repeat split. intros (H & _). discriminate H.
Qed.

(** C1, amended. Whenever the retried sign-out call returns, with or
    without an error reported in its result, [logout] clears the local
    state: [currentUser] and [authToken] become absent,
    [lastTokenRefresh] is zero and the error is cleared; the loading
    flag is kept.  When the call throws, the state is left as it was. *)
Theorem logout_clears_when_signOut_returns :
  (∀ (resp : SignOutResponse) (st : State),
      logout (Fulfilled resp) st =
      {| currentUser := None; authToken := None; isLoading := isLoading st;
         authError := None; lastTokenRefresh := 0 |})
  ∧ (∀ (e : Thrown) (st : State), logout (Rejected e) st = st).
Proof. split; reflexivity. Qed.

(** ** The probe's continuation *)

(** C3, as stated, fails: the probe of a fresh process is answered with
    alice's session together with an error; no user and no token are
    stored, only the error message. *)
Lemma probe_session_with_error_not_used :
  let resp := {| session := Some aliceSession;
                 error := Some {| message := "clock skew" |} |} in
  let w := run [Mount 0%nat; ProbeSettles 1700 epochIso (Fulfilled resp)]
               initialWorld in
  currentUser (instState 0 w) = None
  ∧ authToken (instState 0 w) = None
  ∧ authError (instState 0 w) = Some "Erro de sessão: clock skew"
  ∧ ¬ (currentUser (instState 0 w) = Some (userOfSession epochIso alice)
       ∧ authToken (instState 0 w) = Some "tok-a").
Proof.
  vm_compute. repeat split. intros (H & _). discriminate H.
Qed.

(** C3, amended. When the session fetch returns a valid session
    together with a non-null error, the probe does not use the session:
    [currentUser], [authToken] and [lastTokenRefresh] keep their values
    and the error is reported in [authError]. *)
Theorem probe_session_with_error_sets_authError :
  ∀ (now : Z) (nowIso tok : string) (u : SessionUser) (e : AuthError)
    (st : State),
    probeContinuation now nowIso
      (Fulfilled {| session := Some {| user := Some u; access_token := tok |};
                    error := Some e |}) st
    = {| currentUser := currentUser st; authToken := authToken st;
         isLoading := isLoading st;
         authError := Some ("Erro de sessão: " +:+ message e);
         lastTokenRefresh := lastTokenRefresh st |}.
Proof. reflexivity. Qed.

(** ** The privilege rule *)

Lemma strictEq_spec (s : option string) (lit : string) :
  strictEq s lit = true ↔ s = Some lit.
Proof.
  destruct s as [v|]; simpl.
  - rewrite String.eqb_eq. split; [intros -> | intros [= ->]]; reflexivity.
  - split; discriminate.
Qed.

Lemma isAdmin_userOfSession (nowIso : string) (u : SessionUser) :
  isAdmin (userOfSession nowIso u) = true ↔ email u = Some "droweder@gmail.com".
Proof. apply strictEq_spec. Qed.

(** C6. After a successful session fetch (a session with its user and
    no error) the stored user has [isAdmin = true] exactly when the
    account identifier is "droweder@gmail.com", and [false] for every
    other identifier; the same holds after a successful [login] and
    after a change event that carries a live session. *)
Theorem privilege_iff_privileged_account :
  ∀ (now : Z) (nowIso tok : string) (u : SessionUser) (st : State),
    let s := {| user := Some u; access_token := tok |} in
    let ok := Fulfilled {| session := Some s; error := None |} in
    privilegeRule u (probeContinuation now nowIso ok st)
    ∧ privilegeRule u (fst (loginContinuation now nowIso ok st))
    ∧ privilegeRule u (timerCallback now nowIso (Some s) st)
    ∧ (email u ≠ Some "droweder@gmail.com" →
       isAdmin (userOfSession nowIso u) = false).
Proof.
  intros now nowIso tok u st s ok.
  repeat split;
    try (exists (userOfSession nowIso u); split;
         [reflexivity | apply isAdmin_userOfSession]).
  intros Hne. destruct (isAdmin (userOfSession nowIso u)) eqn:E; [|reflexivity].
  apply isAdmin_userOfSession in E. contradiction.
Qed.

(** The rule on two accounts: the privileged one, and one that differs
    from it only by the case of a letter. *)
Example privilege_examples :
  isAdmin (userOfSession epochIso owner) = true
  ∧ isAdmin (userOfSession epochIso alice) = false
  ∧ isAdmin (userOfSession epochIso
       {| su_id := "u-2"; email := Some "Droweder@gmail.com";
          created_at := None |}) = false
  ∧ isAdmin (userOfSession epochIso
       {| su_id := "u-3"; email := None; created_at := None |}) = false.
Proof. repeat split. Qed.

(** ** [login] *)

(** C7. When the backend sign-in reports an error or throws, [login]
    returns [false], sets [authError] to a message, and leaves
    [currentUser], [authToken], [lastTokenRefresh] (and the loading
    flag) at their prior values. *)
Theorem login_failure_only_sets_error :
  ∀ (signIn : string → string → Settled AuthResponse) (now : Z)
    (nowIso identifier secret : string) (st : State),
    signInFailed (signIn identifier secret) →
    let res := login signIn now nowIso identifier secret st in
    snd res = false
    ∧ is_Some (authError (fst res))
    ∧ authError (fst res) = loginFailureMessage (signIn identifier secret)
    ∧ currentUser (fst res) = currentUser st
    ∧ authToken (fst res) = authToken st
    ∧ lastTokenRefresh (fst res) = lastTokenRefresh st
    ∧ isLoading (fst res) = isLoading st.
Proof.
  intros signIn now nowIso identifier secret st Hfail. unfold login.
  destruct (signIn identifier secret) as [resp|ex]; simpl in *.
  - destruct Hfail as [e He]. rewrite He. simpl. repeat split; eauto.
  - repeat split; eauto.
Qed.

(** C7 at a concrete input: alice is signed in, and a sign-in with bad
    credentials is rejected by the backend; then the same with a
    network failure. *)
Lemma login_failure_only_sets_error_witness :
  let bad : string → string → Settled AuthResponse := λ _ _,
    Fulfilled {| session := None;
                 error := Some {| message := "Invalid login credentials" |} |} in
  let res := login bad 1800 epochIso "a@b.com" "pw" signedIn in
  signInFailed (bad "a@b.com" "pw")
  ∧ snd res = false
  ∧ authError (fst res) = Some "Erro no login: Invalid login credentials"
  ∧ currentUser (fst res) = currentUser signedIn
  ∧ authToken (fst res) = Some "tok-a"
  ∧ lastTokenRefresh (fst res) = 1700.
Proof.
  intros bad res.
  assert (Hf : signInFailed (bad "a@b.com" "pw")) by (simpl; eauto).
  pose proof (login_failure_only_sets_error bad 1800 epochIso "a@b.com" "pw"
                signedIn Hf) as (H1 & _ & H3 & H4 & H5 & H6 & _).
  exact (conj Hf (conj H1 (conj H3 (conj H4 (conj H5 H6))))).
Defined.

(** C8. When the backend sign-in returns a session with its user and no
    error, [login] returns [true], stores the session's access token in
    [authToken] and the user built from the session payload in
    [currentUser]. *)
Theorem login_success_populates_state :
  ∀ (signIn : string → string → Settled AuthResponse) (now : Z)
    (nowIso identifier secret tok : string) (u : SessionUser) (st : State),
    signIn identifier secret =
      Fulfilled {| session := Some {| user := Some u; access_token := tok |};
                   error := None |} →
    let res := login signIn now nowIso identifier secret st in
    snd res = true
    ∧ authToken (fst res) = Some tok
    ∧ currentUser (fst res) =
        Some {| id := su_id u;
                username := orElse (email u) "";
                password := "";
                isAdmin := strictEq (email u) "droweder@gmail.com";
                createdAt := orElse (created_at u) nowIso |}
    ∧ lastTokenRefresh (fst res) = now
    ∧ authError (fst res) = None
    ∧ isLoading (fst res) = isLoading st.
Proof.
  intros signIn now nowIso identifier secret tok u st Hok. unfold login.
  rewrite Hok. simpl. repeat split.
Qed.

(** C8 at a concrete input: a fresh provider, and alice's session. *)
Lemma login_success_populates_state_witness :
  let good : string → string → Settled AuthResponse := λ _ _,
    Fulfilled {| session := Some aliceSession; error := None |} in
  let res := login good 1800 epochIso "a@b.com" "pw" initialState in
  snd res = true
  ∧ authToken (fst res) = Some "tok-a"
  ∧ (username <$> currentUser (fst res)) = Some "a@b.com".
Proof.
  intros good res.
  pose proof (login_success_populates_state good 1800 epochIso "a@b.com" "pw"
                "tok-a" alice initialState eq_refl) as (H1 & H2 & H3 & _).
  refine (conj H1 (conj H2 _)).
  fold res in H3. rewrite H3. reflexivity.
Defined.

(** ** The initialisation guard *)

(** Both early returns of [checkSession] (lines 46-49 and 52-56) do the
    same thing: one write to the caller's loading flag, no suspension. *)
Lemma checkSession_skips (i : nat) (w : World) :
  hasInitialSessionChecked (guard w) = true
  ∨ isCheckingSession (guard w) = true →
  checkSession i w = updState i (setIsLoading false) w.
Proof.
  intros [H|H]; unfold checkSession; rewrite H.
  - reflexivity.
  - destruct (hasInitialSessionChecked (guard w)); reflexivity.
Qed.

(** C5. A call to [checkSession] made once [hasInitialSessionChecked]
    is true issues no backend call and returns without suspending: the
    guard, the in-flight probe and the suspended callers are as before,
    the caller's state changes only in its loading flag, now [false],
    and no other provider's state changes. *)
Theorem checkSession_after_completion_is_noop :
  ∀ (i : nat) (w : World),
    hasInitialSessionChecked (guard w) = true →
    let w' := checkSession i w in
    fetchCalls w' = fetchCalls w
    ∧ guard w' = guard w
    ∧ probe w' = probe w
    ∧ awaiting w' = awaiting w
    ∧ ready w' = ready w
    ∧ instState i w' = setIsLoading false (instState i w)
    ∧ (∀ j : nat, j ≠ i → instState j w' = instState j w).
Proof.
  intros i w H w'. subst w'. rewrite checkSession_skips by (left; exact H).
  repeat split.
  - apply instState_updState_eq.
  - intros j Hj. apply instState_updState_ne. congruence.
Qed.

(** C5 at a concrete input: a second provider mounts after the probe of
    the first one has completed. *)
Lemma checkSession_after_completion_is_noop_witness :
  hasInitialSessionChecked (guard settledWorld) = true
  ∧ fetchCalls (checkSession 1 settledWorld) = 1%nat
  ∧ instState 1 (checkSession 1 settledWorld)
    = setIsLoading false initialState
  ∧ instState 0 (checkSession 1 settledWorld) = instState 0 settledWorld.
Proof.
  assert (H : hasInitialSessionChecked (guard settledWorld) = true)
    by reflexivity.
  pose proof (checkSession_after_completion_is_noop 1 settledWorld H)
    as (H1 & _ & _ & _ & _ & H6 & H7).
  refine (conj H (conj H1 (conj H6 (H7 0%nat _)))).
  discriminate.
Defined.

Lemma unprobed_initialWorld : unprobed initialWorld.
Proof. repeat split. Qed.

Lemma probedOnce_step (w : World) (e : Event) :
  probedOnce w → probedOnce (step w e).
Proof.
  intros [Hn Hg]. destruct e as [i|now nowIso r|i]; simpl.
  - rewrite checkSession_skips by tauto. split; [exact Hn | exact Hg].
  - unfold probeSettles. destruct (probe w); simpl.
    + split; [exact Hn | right; reflexivity].
    + split; [exact Hn | exact Hg].
  - unfold resume. destruct (existsb _ _); split; simpl; assumption.
Qed.

Lemma unprobed_step (w : World) (e : Event) :
  unprobed w →
  match e with
  | Mount _ => probedOnce (step w e)
  | _ => unprobed (step w e)
  end.
Proof.
  intros (Hn & Hp & Hc & Hs & Hi). destruct e as [i|now nowIso r|i]; simpl.
  - unfold checkSession. rewrite Hi, Hc, Hs. simpl.
    split; [rewrite Hn; reflexivity | left; reflexivity].
  - unfold probeSettles. rewrite Hp. repeat split; assumption.
  - unfold resume. destruct (existsb _ _); repeat split; simpl; assumption.
Qed.

Lemma probedOnce_run (evs : list Event) :
  ∀ w : World, probedOnce w → probedOnce (run evs w).
Proof.
  induction evs as [|e evs IH]; intros w H; simpl.
  - exact H.
  - apply IH, probedOnce_step, H.
Qed.

Lemma unprobed_run (evs : list Event) :
  ∀ w : World,
    unprobed w → (1 ≤ mounts evs)%nat → probedOnce (run evs w).
Proof.
  induction evs as [|e evs IH]; intros w H Hm; simpl in *.
  - lia.
  - pose proof (unprobed_step w e H) as Hs.
    destruct e; try (apply IH; [exact Hs | exact Hm]).
    apply probedOnce_run, Hs.
Qed.

(** C4. For every N ≥ 1 and every schedule of a fresh process in which
    [checkSession] is called N times, interleaved in any way with the
    settling of the probe and the resumption of suspended callers, the
    retried session fetch is issued exactly once. *)
Theorem concurrent_checkSession_fetches_once :
  ∀ (evs : list Event) (N : nat),
    mounts evs = N → (1 ≤ N)%nat →
    fetchCalls (run evs initialWorld) = 1%nat.
Proof.
  intros evs N HN Hge.
  apply (unprobed_run evs initialWorld unprobed_initialWorld).
  rewrite HN. exact Hge.
Qed.

(** C4 at a concrete input: three providers mount while the probe is in
    flight and a fourth after it has settled. *)
Lemma concurrent_checkSession_fetches_once_witness :
  let evs := [Mount 0%nat; Mount 1%nat; Mount 2%nat;
              ProbeSettles 1700 epochIso
                (Fulfilled {| session := Some aliceSession; error := None |});
              Resume 0%nat; Mount 3%nat] in
  mounts evs = 4%nat ∧ fetchCalls (run evs initialWorld) = 1%nat.
Proof.
  intros evs. split; [reflexivity|].
  apply (concurrent_checkSession_fetches_once evs 4); [reflexivity | lia].
Defined.

Lemma guardCoherent_step (w : World) (e : Event) :
  guardCoherent w → guardCoherent (step w e).
Proof.
  unfold guardCoherent. intros H. destruct e as [i|now nowIso r|i]; simpl.
  - unfold checkSession.
    destruct (hasInitialSessionChecked (guard w)); [exact H|].
    destruct (isCheckingSession (guard w)) eqn:Hc; [simpl; rewrite Hc; exact H|].
    rewrite H. reflexivity.
  - unfold probeSettles. destruct (probe w); [reflexivity | exact H].
  - unfold resume. destruct (existsb _ _); exact H.
Qed.

Lemma guardCoherent_run (evs : list Event) :
  ∀ w : World, guardCoherent w → guardCoherent (run evs w).
Proof.
  induction evs as [|e evs IH]; intros w H; simpl.
  - exact H.
  - apply IH, guardCoherent_step, H.
Qed.

(** In every process state that a schedule can reach, a set promise
    variable comes with a set [isCheckingSession]: the test of line 52
    returns before the test of line 59 can see the promise, so no call
    ever reaches [await sessionCheckPromise] of line 60. *)
Lemma promise_implies_checking (evs : list Event) :
  let w := run evs initialWorld in
  sessionCheckPromise (guard w) ≠ None →
  isCheckingSession (guard w) = true.
Proof.
  intros w Hp.
  assert (H : guardCoherent w)
    by (apply guardCoherent_run; reflexivity).
  unfold guardCoherent in H.
  destruct (isCheckingSession (guard w)); [reflexivity | contradiction].
Qed.

(** C2: the code at two overlapping calls.  Provider 0 starts the
    probe; provider 1 calls [checkSession] while the probe is in flight
    ([isCheckingSession] is set).  The second call issues no fetch, but
    it does not wait either: it is not among the suspended callers, its
    loading flag is already [false], and the probe's outcome (alice's
    session) arrives only afterwards. *)
Theorem checkSession_in_flight_does_not_await :
  let w1 := run [Mount 0%nat] initialWorld in
  let w2 := checkSession 1 w1 in
  let w3 := probeSettles 1700 epochIso
              (Fulfilled {| session := Some aliceSession; error := None |}) w2 in
  isCheckingSession (guard w1) = true
  ∧ sessionCheckPromise (guard w1) = Some tt
  ∧ fetchCalls w2 = fetchCalls w1
  ∧ awaiting w2 = [0%nat]
  ∧ isLoading (instState 1 w2) = false
  ∧ isCheckingSession (guard w2) = true
  ∧ currentUser (instState 0 w2) = None
  ∧ currentUser (instState 0 w3) = Some (userOfSession epochIso alice)
  ∧ ready w3 = [0%nat].
Proof. vm_compute. repeat split. Qed.

(** ** The debounced change handler *)

Lemma runTimers_idle (t : Z) (nowIso : string) (sb : Subscriber) :
  authStateChangeTimeout sb = None → runTimers t nowIso sb = sb.
Proof. intros H. unfold runTimers. rewrite H. reflexivity. Qed.

Lemma runTimers_early (t : Z) (nowIso : string) (sb : Subscriber) (tm : Timer) :
  authStateChangeTimeout sb = Some tm → t < deadline tm →
  runTimers t nowIso sb = sb.
Proof.
  intros H Hlt. unfold runTimers. rewrite H.
  destruct (Z.leb_spec (deadline tm) t); [lia | reflexivity].
Qed.

Lemma play_ticks_idle (later : list Action) :
  ∀ sb : Subscriber,
    Forall isTick later → authStateChangeTimeout sb = None →
    play later sb = sb.
Proof.
  induction later as [|a later IH]; intros sb Hall Hnone; simpl.
  - reflexivity.
  - inversion Hall as [|? ? Ha Hrest]; subst.
    destruct a as [t ev s|t iso]; [destruct Ha|]. simpl.
    rewrite runTimers_idle by exact Hnone. apply IH; assumption.
Qed.

(** Inside the window nothing fires: the state and the counter stay,
    and the timer variable holds the callback of the last notification. *)
Lemma play_inside_window (t0 : Z) (rest : list Action) :
  ∀ (sb : Subscriber) (t : Z) (ev : string) (s : option Session),
    authStateChangeTimeout sb
      = Some {| deadline := t + 500; timerEvent := ev; timerSession := s |} →
    t0 ≤ t →
    Forall (inWindow t0) rest →
    ∃ (tl : Z) (evl : string) (sl : option Session),
      lastNotify rest (Some (t, s)) = Some (tl, sl)
      ∧ play rest sb
        = {| view := view sb;
             authStateChangeTimeout :=
               Some {| deadline := tl + 500; timerEvent := evl;
                       timerSession := sl |};
             applied := applied sb |}.
Proof.
  induction rest as [|a rest IH]; intros sb t ev s Htm Ht Hall.
  - exists t, ev, s. split; [reflexivity|].
    destruct sb as [v tmo n]; simpl in *. subst tmo. reflexivity.
  - inversion Hall as [|? ? Ha Hrest]; subst.
    destruct a as [t' ev' s'|t' iso]; unfold inWindow in Ha; simpl in Ha.
    + destruct (IH (onAuthStateChange t' ev' s' sb) t' ev' s' eq_refl
                  (proj1 Ha) Hrest) as (tl & evl & sl & Hl & Hp).
      exists tl, evl, sl. split; [exact Hl | exact Hp].
    + simpl. rewrite (runTimers_early t' iso sb _ Htm) by (simpl; lia).
      apply (IH sb t ev s Htm Ht Hrest).
Qed.

(** C9. A burst of change events that all arrive within one window of
    500 ms leaves the state untouched while the window is open; once
    500 ms have passed since its last event, exactly one update is
    applied, and it reflects the payload of the last event alone: when
    that event carries a session with its user, the stored user is the
    one built from that session, the token is its access token and the
    refresh timestamp is the time the callback ran; otherwise user and
    token are cleared and the timestamp is zero.  The earlier events
    of the burst leave no trace, and nothing remains scheduled: later
    timer phases apply nothing more. *)
Theorem debounce_applies_last_event_once :
  ∀ (sb : Subscriber) (t0 : Z) (ev0 : string) (s0 : option Session)
    (rest later : list Action) (tl : Z) (sl : option Session)
    (T : Z) (nowIso : string),
    Forall (inWindow t0) rest →
    lastNotify rest (Some (t0, s0)) = Some (tl, sl) →
    tl + 500 ≤ T →
    Forall isTick later →
    let burst := Notify t0 ev0 s0 :: rest in
    view (play burst sb) = view sb
    ∧ applied (play burst sb) = applied sb
    ∧ play (burst ++ Tick T nowIso :: later) sb
      = {| view :=
             match sl with
             | Some {| user := Some u; access_token := tok |} =>
                 {| currentUser :=
                      Some {| id := su_id u;
                              username := orElse (email u) "";
                              password := "";
                              isAdmin := strictEq (email u) "droweder@gmail.com";
                              createdAt := orElse (created_at u) nowIso |};
                    authToken := Some tok;
                    isLoading := isLoading (view sb);
                    authError := None;
                    lastTokenRefresh := T |}
             | _ =>
                 {| currentUser := None;
                    authToken := None;
                    isLoading := isLoading (view sb);
                    authError := None;
                    lastTokenRefresh := 0 |}
             end;
           authStateChangeTimeout := None;
           applied := S (applied sb) |}.
Proof.
  intros sb t0 ev0 s0 rest later tl sl T nowIso Hall Hlast HT Hlater burst.
  subst burst.
  destruct (play_inside_window t0 rest (onAuthStateChange t0 ev0 s0 sb)
              t0 ev0 s0 eq_refl (Z.le_refl t0) Hall)
    as (tl' & evl & sl' & Hl & Hp).
  rewrite Hlast in Hl. injection Hl as <- <-.
  assert (Hb : play (Notify t0 ev0 s0 :: rest) sb
               = play rest (onAuthStateChange t0 ev0 s0 sb)) by reflexivity.
  split; [rewrite Hb, Hp; reflexivity|].
  split; [rewrite Hb, Hp; reflexivity|].
  unfold play at 1. rewrite fold_left_app. fold (play (Notify t0 ev0 s0 :: rest) sb).
  rewrite Hb, Hp. simpl fold_left.
  fold (play later). unfold runTimers at 1. simpl.
  destruct (Z.leb_spec (tl + 500) T); [|lia].
  rewrite play_ticks_idle by (try exact Hlater; reflexivity).
  f_equal. destruct sl as [[[u|] tok]|]; reflexivity.
Qed.

(** C9 at two concrete inputs: five events within 400 ms reach a
    provider in which alice is signed in; the timer phase runs once
    inside the window and twice after it.  In the first burst the last
    event carries the owner's session, which alone is stored; in the
    second the last event is a sign-out. *)
Lemma debounce_applies_last_event_once_witness :
  let sb := {| view := signedIn; authStateChangeTimeout := None;
               applied := 0 |} in
  let rest1 := [Notify 100 "SIGNED_OUT" None;
                Notify 200 "TOKEN_REFRESHED" (Some aliceSession);
                Tick 250 epochIso;
                Notify 300 "SIGNED_OUT" None;
                Notify 400 "SIGNED_IN" (Some ownerSession)] in
  let rest2 := [Notify 100 "TOKEN_REFRESHED" (Some aliceSession);
                Notify 200 "TOKEN_REFRESHED" (Some ownerSession);
                Tick 250 epochIso;
                Notify 300 "USER_UPDATED" (Some aliceSession);
                Notify 400 "SIGNED_OUT" None] in
  play (Notify 0 "TOKEN_REFRESHED" (Some aliceSession) :: rest1
          ++ [Tick 900 "2024-05-05T10:00:00.900Z";
              Tick 1500 "2024-05-05T10:00:01.500Z"]) sb
  = {| view :=
         {| currentUser :=
              Some {| id := "u-0"; username := "droweder@gmail.com";
                      password := ""; isAdmin := true;
                      createdAt := "2024-05-05T10:00:00.900Z" |};
            authToken := Some "tok-o"; isLoading := false;
            authError := None; lastTokenRefresh := 900 |};
       authStateChangeTimeout := None;
       applied := 1 |}
  ∧ play (Notify 0 "SIGNED_IN" (Some aliceSession) :: rest2
            ++ [Tick 900 epochIso; Tick 1500 epochIso]) sb
    = {| view := {| currentUser := None; authToken := None;
                    isLoading := false; authError := None;
                    lastTokenRefresh := 0 |};
         authStateChangeTimeout := None;
         applied := 1 |}.
Proof.
  intros sb rest1 rest2.
  assert (Hw1 : Forall (inWindow 0) rest1).
  { subst rest1. repeat constructor; unfold inWindow; simpl; lia. }
  assert (Hw2 : Forall (inWindow 0) rest2).
  { subst rest2. repeat constructor; unfold inWindow; simpl; lia. }
  assert (Hl1 : lastNotify rest1 (Some (0, Some aliceSession))
                = Some (400, Some ownerSession)) by reflexivity.
  assert (Hl2 : lastNotify rest2 (Some (0, Some aliceSession))
                = Some (400, None)) by reflexivity.
  assert (HT : 400 + 500 ≤ 900) by lia.
  assert (Hk1 : Forall isTick [Tick 1500 "2024-05-05T10:00:01.500Z"])
    by (repeat constructor).
  assert (Hk2 : Forall isTick [Tick 1500 epochIso])
    by (repeat constructor).
  pose proof (debounce_applies_last_event_once sb 0 "TOKEN_REFRESHED"
                (Some aliceSession) rest1 [Tick 1500 "2024-05-05T10:00:01.500Z"]
                400 (Some ownerSession) 900 "2024-05-05T10:00:00.900Z"
                Hw1 Hl1 HT Hk1) as (_ & _ & H1).
  pose proof (debounce_applies_last_event_once sb 0 "SIGNED_IN"
                (Some aliceSession) rest2 [Tick 1500 epochIso] 400 None 900
                epochIso Hw2 Hl2 HT Hk2) as (_ & _ & H2).
  exact (conj H1 H2).
Defined.

(** ** What the writes of one provider keep *)

(** A group of writes leaves the session fields alone, or stores a user
    built from a session together with a token, or clears all three. *)
Lemma write_cases (st : State) (w : Write) :
  (currentUser (write st w) = currentUser st
   ∧ authToken (write st w) = authToken st
   ∧ lastTokenRefresh (write st w) = lastTokenRefresh st)
  ∨ (∃ (nowIso tok : string) (u : SessionUser),
        currentUser (write st w) = Some (userOfSession nowIso u)
        ∧ authToken (write st w) = Some tok)
  ∨ (currentUser (write st w) = None
     ∧ authToken (write st w) = None
     ∧ lastTokenRefresh (write st w) = 0).
Proof.
  destruct w as [| |now iso r|now iso sess| |now iso r|r|]; simpl;
    try (left; repeat split; fail).
  - destruct r as [[[[[u|] tok]|] [e|]]|ex]; simpl;
      try (left; repeat split; fail).
    right; left. exists iso, tok, u. split; reflexivity.
  - unfold timerCallback. destruct sess as [[[u|] tok]|]; simpl;
      try (right; right; repeat split; fail).
    right; left. exists iso, tok, u. split; reflexivity.
  - destruct r as [[[[[u|] tok]|] [e|]]|ex]; simpl;
      try (left; repeat split; fail).
    right; left. exists iso, tok, u. split; reflexivity.
  - destruct r as [resp|ex]; simpl.
    + right; right. repeat split.
    + left. repeat split.
Qed.

Lemma write_isLoading (st : State) (w : Write) :
  isLoading (write st w) = isLoading st ∨ isLoading (write st w) = false.
Proof.
  destruct w as [| |now iso r|now iso sess| |now iso r|r|]; simpl; auto.
  - destruct r as [[[[[u|] tok]|] [e|]]|ex]; simpl; auto.
  - unfold timerCallback. destruct sess as [[[u|] tok]|]; simpl; auto.
  - destruct r as [[[[[u|] tok]|] [e|]]|ex]; simpl; auto.
  - destruct r; simpl; auto.
Qed.

Lemma wellFormedUser_userOfSession (nowIso : string) (u : SessionUser) :
  wellFormedUser (userOfSession nowIso u).
Proof.
  split; [reflexivity|]. unfold userOfSession; cbn [isAdmin username].
  rewrite strictEq_spec.
  destruct (email u) as [[|c v]|]; cbn [orElse].
  - split; discriminate.
  - unfold privilegedAccount.
    split; [intros H; congruence | intros H; rewrite H; reflexivity].
  - split; discriminate.
Qed.

Lemma tokenConsistent_write (st : State) (w : Write) :
  tokenConsistent st → tokenConsistent (write st w).
Proof.
  intros [Hiff Hz]. unfold tokenConsistent.
  destruct (write_cases st w) as [(Hu & Ht & Hr)|[(iso & tok & u & Hu & Ht)|(Hu & Ht & Hr)]].
  - rewrite Hu, Ht, Hr. split; assumption.
  - rewrite Hu, Ht. split; [split; discriminate | discriminate].
  - rewrite Hu, Ht, Hr. split; [split; reflexivity | reflexivity].
Qed.

Lemma storesWellFormedUser_write (st : State) (w : Write) :
  storesWellFormedUser st → storesWellFormedUser (write st w).
Proof.
  intros H usr. 
  destruct (write_cases st w) as [(Hu & _)|[(iso & tok & u & Hu & _)|(Hu & _)]];
    rewrite Hu.
  - apply H.
  - intros [= <-]. apply wellFormedUser_userOfSession.
  - discriminate.
Qed.

(** X1. Along every sequence of state writes of a provider (probe,
    change callbacks, logins, logouts, the manual-login button, in any
    order and with any backend answers), the token is present exactly
    when the user is, and a provider without a user has its refresh
    timestamp at zero; so the provided [isAuthenticated] is true
    exactly when the provided [authToken] is present. *)
Theorem writes_keep_token_consistent :
  ∀ l : list Write,
    let st := writes l initialState in
    tokenConsistent st
    ∧ (ctxIsAuthenticated (contextValue st) = true
       ↔ is_Some (ctxAuthToken (contextValue st))).
Proof.
  intros l.
  assert (H : ∀ st, tokenConsistent st → tokenConsistent (writes l st)).
  { induction l as [|w l IH]; intros st Hst; simpl; [exact Hst|].
    apply IH, tokenConsistent_write, Hst. }
  intros st. subst st.
  assert (H0 : tokenConsistent initialState) by (split; [split|]; reflexivity).
  specialize (H _ H0). split; [exact H|].
  destruct H as [Hiff _]. simpl.
  rewrite bool_decide_eq_true.
  destruct Hiff as [Ha Hb].
  destruct (currentUser (writes l initialState)) as [usr|],
           (authToken (writes l initialState)) as [tok|].
  - split; intros _; eexists; reflexivity.
  - discriminate (Hb eq_refl).
  - discriminate (Ha eq_refl).
  - split; intros [x Hx]; discriminate Hx.
Qed.

(** X2. Along every sequence of state writes of a provider, a stored
    user never holds a password, and its [isAdmin] flag is true exactly
    when its [username] is "droweder@gmail.com". *)
Theorem writes_keep_user_well_formed :
  ∀ (l : list Write) (usr : User),
    currentUser (writes l initialState) = Some usr →
    password usr = ""
    ∧ (isAdmin usr = true ↔ username usr = "droweder@gmail.com").
Proof.
  intros l.
  assert (H : ∀ st, storesWellFormedUser st → storesWellFormedUser (writes l st)).
  { induction l as [|w l IH]; intros st Hst; simpl; [exact Hst|].
    apply IH, storesWellFormedUser_write, Hst. }
  apply H. intros usr Habs. discriminate Habs.
Qed.

(** X2 at a concrete input: the owner signs in, signs out and a change
    event brings a session whose user has no e-mail address. *)
Lemma writes_keep_user_well_formed_witness :
  let l := [WProbeBegin;
            WProbeResume 10 epochIso
              (Fulfilled {| session := None; error := None |});
            WLoaded; WLoginBegin;
            WLoginResume 20 epochIso
              (Fulfilled {| session := Some ownerSession; error := None |});
            WLogoutResume (Fulfilled {| signOutError := None |});
            WChange 900 epochIso
              (Some {| user := Some {| su_id := "u-9"; email := None;
                                       created_at := Some "" |};
                       access_token := "tok-9" |})] in
  let usr := {| id := "u-9"; username := ""; password := "";
                isAdmin := false; createdAt := epochIso |} in
  currentUser (writes l initialState) = Some usr
  ∧ password usr = ""
  ∧ (isAdmin usr = true ↔ username usr = "droweder@gmail.com").
Proof.
  intros l usr.
  assert (H : currentUser (writes l initialState) = Some usr) by reflexivity.
  exact (conj H (writes_keep_user_well_formed l usr H)).
Defined.

(** X3. Once a provider has left the loading screen it never shows it
    again: whatever writes follow, it renders the context provider
    around its children. *)
Theorem loading_screen_never_returns :
  ∀ (l : list Write) (st : State),
    isLoading st = false →
    render (writes l st) = Provider (contextValue (writes l st)).
Proof.
  intros l st H.
  assert (Hl : isLoading (writes l st) = false).
  { revert st H. induction l as [|w l IH]; intros st H; simpl; [exact H|].
    apply IH. destruct (write_isLoading st w) as [E|E]; congruence. }
  unfold render. rewrite Hl. reflexivity.
Qed.

(** X3 at a concrete input: alice is signed in and the sign-out fails
    with an exception after a failed login. *)
Lemma loading_screen_never_returns_witness :
  let l := [WLoginBegin;
            WLoginResume 20 epochIso (Rejected ThrownOther);
            WLogoutResume (Rejected (ThrownError "offline"))] in
  isLoading signedIn = false
  ∧ render (writes l signedIn)
    = Provider {| ctxCurrentUser := Some (userOfSession epochIso alice);
                  ctxIsAuthenticated := true;
                  ctxAuthToken := Some "tok-a";
                  ctxAuthError := Some "Erro de conexão: Erro desconhecido" |}.
Proof.
  intros l. split; [reflexivity|].
  exact (loading_screen_never_returns l signedIn eq_refl).
Defined.

(** ** [login] on every answer *)

(** X4. [login] returns [true] exactly when the sign-in answer has no
    error and carries a session with its user, whatever was written to
    the state while the call was suspended at its [await].  After a
    reported error or an exception the error in the state is the
    message of this attempt; on an answer without error [login] writes
    no error after the [await], so the error is the one found at
    resumption: absent when nothing else wrote in between, also for an
    answer with neither error nor usable session, which yields [false]
    with no message.  When [login] returns [false] the user, the token
    and the refresh timestamp are those found at resumption. *)
Theorem login_result_characterised :
  ∀ (now : Z) (nowIso : string) (r : Settled AuthResponse)
    (during : list Write) (st : State),
    let resumed := writes during (loginBegin st) in
    let res := loginContinuation now nowIso r resumed in
    (snd res = true ↔ is_Some (adopted r))
    ∧ authError (fst res)
      = match loginFailureMessage r with
        | Some m => Some m
        | None => authError resumed
        end
    ∧ authError (loginBegin st) = None
    ∧ (snd res = false →
       currentUser (fst res) = currentUser resumed
       ∧ authToken (fst res) = authToken resumed
       ∧ lastTokenRefresh (fst res) = lastTokenRefresh resumed).
Proof.
  intros now nowIso r during st resumed res. subst res.
  generalize resumed. clear resumed. intros st'.
  destruct r as [[[[[u|] tok]|] [e|]]|ex]; simpl;
    (split; [split; [discriminate || eauto
                    | intros [x Hx]; discriminate Hx || reflexivity]
            | split; [reflexivity
                     | split; [reflexivity
                              | discriminate || (intros _; repeat split)]]]).
Qed.

(** The error of another attempt can remain after a [login] that
    returned [true]: a second [login] fails while the first one is
    suspended. *)
Example login_success_keeps_error_written_during_await :
  let during := [WLoginBegin;
                 WLoginResume 30 epochIso
                   (Fulfilled {| session := None;
                                 error := Some {| message := "rate limit" |} |})] in
  let res := loginContinuation 40 epochIso
               (Fulfilled {| session := Some aliceSession; error := None |})
               (writes during (loginBegin initialState)) in
  snd res = true
  ∧ authToken (fst res) = Some "tok-a"
  ∧ authError (fst res) = Some "Erro no login: rate limit".
Proof. repeat split. Qed.

(** X5. A session object without a user is handled differently by the
    three paths: the probe ignores it and leaves the state as it is,
    [login] returns [false] having only cleared the error, and the
    change callback treats it as a sign-out and clears the user, the
    token and the refresh timestamp. *)
Theorem session_without_user :
  ∀ (now : Z) (nowIso tok : string) (st : State),
    let s := {| user := None; access_token := tok |} in
    let r := Fulfilled {| session := Some s; error := None |} in
    probeContinuation now nowIso r st = st
    ∧ login (λ _ _, r) now nowIso "" "" st = (setAuthError None st, false)
    ∧ timerCallback now nowIso (Some s) st
      = {| currentUser := None; authToken := None; isLoading := isLoading st;
           authError := None; lastTokenRefresh := 0 |}.
Proof.
  intros now nowIso tok st s r. repeat split.
Qed.

(** ** The subscription outside a burst *)

Lemma play_app (l1 l2 : list Action) (sb : Subscriber) :
  play (l1 ++ l2) sb = play l2 (play l1 sb).
Proof. unfold play. apply fold_left_app. Qed.

(** X6. A successful [login] makes the provider authenticated, and both
    ways back lead to the anonymous context: a sign-out call that
    returns, and a change event without session once its 500 ms have
    elapsed (whatever callback was scheduled before it). *)
Theorem login_then_sign_out_round_trip :
  ∀ (signIn : string → string → Settled AuthResponse) (now : Z)
    (nowIso identifier secret tok : string) (u : SessionUser) (st : State)
    (resp : SignOutResponse) (t T : Z) (ev iso : string)
    (tmo : option Timer) (n : nat),
    signIn identifier secret =
      Fulfilled {| session := Some {| user := Some u; access_token := tok |};
                   error := None |} →
    t + 500 ≤ T →
    let st1 := fst (login signIn now nowIso identifier secret st) in
    ctxIsAuthenticated (contextValue st1) = true
    ∧ contextValue (logout (Fulfilled resp) st1) = anonymousContext
    ∧ contextValue
        (view (play [Notify t ev None; Tick T iso]
                 {| view := st1; authStateChangeTimeout := tmo;
                    applied := n |}))
      = anonymousContext.
Proof.
  intros signIn now nowIso identifier secret tok u st resp t T ev iso tmo n
    Hok HT st1. subst st1. unfold login. rewrite Hok.
  split; [reflexivity|]. split; [reflexivity|].
  simpl. unfold runTimers. simpl. unfold throttle.
  destruct (Z.leb_spec (t + 500) T); [reflexivity | lia].
Qed.

(** X6 at a concrete input. *)
Lemma login_then_sign_out_round_trip_witness :
  let good : string → string → Settled AuthResponse := λ _ _,
    Fulfilled {| session := Some aliceSession; error := None |} in
  let st1 := fst (login good 1800 epochIso "a@b.com" "pw" initialState) in
  ctxAuthToken (contextValue st1) = Some "tok-a"
  ∧ contextValue (logout (Fulfilled {| signOutError := None |}) st1)
    = anonymousContext.
Proof.
  intros good st1.
  assert (H5 : 2000 + 500 ≤ 2500) by lia.
  pose proof (login_then_sign_out_round_trip good 1800 epochIso "a@b.com" "pw"
                "tok-a" alice initialState {| signOutError := None |}
                2000 2500 "SIGNED_OUT" epochIso None 0%nat eq_refl H5)
    as (_ & H2 & _).
  split; [reflexivity | exact H2].
Defined.

(** X7. After the effect's cleanup no scheduled callback runs: whatever
    notifications came before and however many timer phases follow, the
    state and the number of applied updates stay as they were at
    cleanup. *)
Theorem cleanup_cancels_scheduled_update :
  ∀ (l later : list Action) (sb : Subscriber),
    Forall isTick later →
    let sb' := play later (cleanup (play l sb)) in
    view sb' = view (play l sb)
    ∧ applied sb' = applied (play l sb)
    ∧ authStateChangeTimeout sb' = None.
Proof.
  intros l later sb Hlater sb'. subst sb'.
  rewrite play_ticks_idle by (try exact Hlater; reflexivity).
  repeat split.
Qed.

(** X7 at a concrete input: alice's provider is torn down 100 ms after
    a sign-out event; the sign-out is never applied. *)
Lemma cleanup_cancels_scheduled_update_witness :
  let sb := {| view := signedIn; authStateChangeTimeout := None;
               applied := 0 |} in
  view (play [Tick 700 epochIso; Tick 5000 epochIso]
          (cleanup (play [Notify 100 "SIGNED_OUT" None] sb)))
  = signedIn.
Proof.
  intros sb.
  assert (Hk : Forall isTick [Tick 700 epochIso; Tick 5000 epochIso])
    by (repeat constructor).
  exact (proj1 (cleanup_cancels_scheduled_update
                  [Notify 100 "SIGNED_OUT" None] _ sb Hk)).
Defined.

Lemma play_spaced_one (e : SpacedEvent) (sb : Subscriber) :
  evTime e + 500 ≤ evFired e →
  play [Notify (evTime e) (evName e) (evSession e);
        Tick (evFired e) (evFiredIso e)] sb
  = {| view := applySpaced (view sb) e;
       authStateChangeTimeout := None;
       applied := S (applied sb) |}.
Proof.
  intros H. simpl. unfold runTimers. simpl. unfold throttle.
  destruct (Z.leb_spec (evTime e + 500) (evFired e)); [reflexivity | lia].
Qed.

(** X8. Change events that are each followed by a timer phase at least
    500 ms later, before the next event arrives, are all applied, one
    update per event and in their order of arrival. *)
Theorem spaced_events_all_applied :
  ∀ (l : list SpacedEvent) (sb : Subscriber),
    Forall (λ e, evTime e + 500 ≤ evFired e) l →
    view (play (spacedTrace l) sb) = fold_left applySpaced l (view sb)
    ∧ applied (play (spacedTrace l) sb) = (applied sb + length l)%nat.
Proof.
  induction l as [|e l IH]; intros sb Hall.
  - simpl. split; [reflexivity | lia].
  - inversion Hall as [|? ? He Hl]; subst.
    change (spacedTrace (e :: l))
      with ([Notify (evTime e) (evName e) (evSession e);
             Tick (evFired e) (evFiredIso e)] ++ spacedTrace l).
    rewrite play_app, (play_spaced_one e sb He).
    destruct (IH {| view := applySpaced (view sb) e;
                    authStateChangeTimeout := None;
                    applied := S (applied sb) |} Hl) as [Hv Ha].
    rewrite Hv, Ha. simpl. split; [reflexivity | lia].
Qed.

(** X8 at a concrete input: a sign-in and, two seconds later, a
    sign-out; both are applied. *)
Lemma spaced_events_all_applied_witness :
  let l := [{| evTime := 0; evName := "SIGNED_IN";
               evSession := Some ownerSession; evFired := 500;
               evFiredIso := epochIso |};
            {| evTime := 2000; evName := "SIGNED_OUT"; evSession := None;
               evFired := 2600; evFiredIso := epochIso |}] in
  let sb := {| view := setIsLoading false initialState;
               authStateChangeTimeout := None; applied := 0 |} in
  applied (play (spacedTrace l) sb) = 2%nat
  ∧ currentUser (view (play (spacedTrace l) sb)) = None.
Proof.
  intros l sb.
  assert (H : Forall (λ e, evTime e + 500 ≤ evFired e) l).
  { subst l. repeat constructor; simpl; lia. }
  destruct (spaced_events_all_applied l sb H) as [Hv Ha].
  split; [exact Ha | rewrite Hv; reflexivity].
Defined.

Lemma act_budget (sb : Subscriber) (a : Action) :
  (applied (act sb a) + scheduled (act sb a)
   ≤ applied sb + scheduled sb + notifications [a])%nat
  ∧ (applied sb ≤ applied (act sb a))%nat.
Proof.
  destruct a as [t ev s|t iso]; simpl.
  - unfold scheduled; simpl. destruct (authStateChangeTimeout sb); lia.
  - unfold runTimers, scheduled.
    destruct (authStateChangeTimeout sb) as [tm|] eqn:E; simpl.
    + destruct (deadline tm <=? t); simpl; [lia | rewrite E; lia].
    + rewrite E. lia.
Qed.

(** X9. On every trace of notifications and timer phases, the number of
    updates applied never decreases and, counted together with the
    callback still scheduled, never exceeds the number of notifications
    received plus the callback that was scheduled at the start: no
    notification is ever applied twice. *)
Theorem applied_updates_bounded :
  ∀ (l : list Action) (sb : Subscriber),
    (applied sb ≤ applied (play l sb))%nat
    ∧ (applied (play l sb) + scheduled (play l sb)
       ≤ applied sb + scheduled sb + notifications l)%nat.
Proof.
  induction l as [|a l IH]; intros sb.
  - simpl. lia.
  - change (play (a :: l) sb) with (play l (act sb a)).
    destruct (IH (act sb a)) as [H1 H2].
    destruct (act_budget sb a) as [H3 H4].
    assert (Hn : notifications (a :: l)
                 = (notifications [a] + notifications l)%nat)
      by (destruct a; reflexivity).
    rewrite Hn. lia.
Qed.

(** ** The phases of the process *)

Lemma wellPhased_step (w : World) (e : Event) :
  wellPhased w →
  wellPhased (step w e)
  ∧ (phaseRank (phase w) ≤ phaseRank (phase (step w e)))%nat.
Proof.
  destruct w as [[hc ic sp hi] sts p aw rd n].
  unfold wellPhased, phase. simpl.
  destruct e as [i|now iso r|i]; simpl.
  - unfold checkSession; simpl.
    destruct hi, ic; simpl; try (intros H; split; [exact H | lia]).
    intros (Hn & Hp & Hs). subst sp. simpl.
    split; [|lia]. rewrite Hn. repeat split. eauto.
  - unfold probeSettles; simpl.
    destruct p as [k|]; simpl.
    + destruct hi, ic; simpl; intros H; (split; [|lia]).
      all: try (destruct H as (H1 & H2 & H3); discriminate H2).
      all: try (destruct H as (H1 & H2 & H3 & H4); discriminate H2).
      destruct H as (H1 & H2 & H3). repeat split. exact H1.
    + intros H. split; [exact H | lia].
  - unfold resume; simpl.
    destruct (existsb (Nat.eqb i) rd); simpl; intros H; (split; [exact H | lia]).
Qed.

Lemma wellPhased_run (evs : list Event) :
  ∀ w : World,
    wellPhased w →
    wellPhased (run evs w)
    ∧ (phaseRank (phase w) ≤ phaseRank (phase (run evs w)))%nat.
Proof.
  induction evs as [|e evs IH]; intros w H; simpl.
  - split; [exact H | lia].
  - destruct (wellPhased_step w e H) as [H1 H2].
    destruct (IH (step w e) H1) as [H3 H4].
    split; [exact H3 | lia].
Qed.

Lemma wellPhased_initialWorld : wellPhased initialWorld.
Proof. repeat split. Qed.

Lemma run_app (evs1 evs2 : list Event) (w : World) :
  run (evs1 ++ evs2) w = run evs2 (run evs1 w).
Proof. unfold run. apply fold_left_app. Qed.

(** X10. In every state a schedule can reach, the guard, the probe in
    flight and the number of fetches agree: before the first call no
    fetch was issued and no promise is set; while the probe is in
    flight one fetch was issued and the promise is set; after it one
    fetch was issued, nothing is in flight and the in-flight flag and
    the promise are reset.  Along a schedule the phase only moves
    forward: uninitialised, initialising, completed. *)
Theorem phases_only_move_forward :
  ∀ evs1 evs2 : list Event,
    let w1 := run evs1 initialWorld in
    let w2 := run (evs1 ++ evs2) initialWorld in
    wellPhased w1
    ∧ (fetchCalls w1 ≤ 1)%nat
    ∧ (is_Some (probe w1) ↔ isCheckingSession (guard w1) = true)
    ∧ (phaseRank (phase w1) ≤ phaseRank (phase w2))%nat.
Proof.
  intros evs1 evs2 w1 w2. subst w1 w2. rewrite run_app.
  destruct (wellPhased_run evs1 initialWorld wellPhased_initialWorld)
    as [H1 _].
  destruct (wellPhased_run evs2 _ H1) as [_ H2].
  split; [exact H1|]. split; [|split; [|exact H2]].
  - unfold wellPhased in H1. destruct (phase (run evs1 initialWorld));
      destruct H1 as (Hn & _); lia.
  - unfold wellPhased, phase in H1.
    destruct (hasInitialSessionChecked (guard (run evs1 initialWorld))),
             (isCheckingSession (guard (run evs1 initialWorld))) eqn:Hc.
    + destruct H1 as (_ & _ & Hf & _). discriminate Hf.
    + destruct H1 as (_ & Hp & _). rewrite Hp.
      split; [intros [x Hx]; discriminate Hx | discriminate].
    + destruct H1 as (_ & Hp & _). split; [reflexivity | intros _; exact Hp].
    + destruct H1 as (_ & Hp & _). rewrite Hp.
      split; [intros [x Hx]; discriminate Hx | discriminate].
Qed.

Lemma sameView_refl (a : State) : sameView a a.
Proof. repeat split. Qed.

Lemma sameView_trans (a b c : State) :
  sameView a b → sameView b c → sameView a c.
Proof.
  intros (H1 & H2 & H3 & H4) (K1 & K2 & K3 & K4).
  repeat split; congruence.
Qed.

Lemma sameView_updState_loading (i k : nat) (w : World) :
  sameView (instState k (updState i (setIsLoading false) w)) (instState k w).
Proof.
  destruct (decide (i = k)) as [->|Hne].
  - rewrite instState_updState_eq. repeat split.
  - rewrite instState_updState_ne by exact Hne. apply sameView_refl.
Qed.

Lemma completed_step (w : World) (e : Event) :
  hasInitialSessionChecked (guard w) = true → probe w = None →
  guard (step w e) = guard w
  ∧ probe (step w e) = None
  ∧ fetchCalls (step w e) = fetchCalls w
  ∧ ∀ k : nat, sameView (instState k (step w e)) (instState k w).
Proof.
  intros Hi Hp. destruct e as [i|now iso r|i]; simpl.
  - rewrite checkSession_skips by (left; exact Hi).
    repeat split; try assumption; apply sameView_updState_loading.
  - unfold probeSettles. rewrite Hp. repeat split; assumption.
  - unfold resume. destruct (existsb (Nat.eqb i) (ready w)).
    + split; [reflexivity|]. split; [exact Hp|]. split; [reflexivity|].
      intros k. apply (sameView_updState_loading i k w).
    + repeat split; assumption.
Qed.

(** X11. Once the probe has completed, no schedule changes the guard,
    issues a fetch or starts a probe again, and no provider's user,
    token, error or refresh timestamp changes: later [checkSession]
    calls and resumptions only turn loading flags off. *)
Theorem completed_process_is_frozen :
  ∀ (evs : list Event) (w : World),
    hasInitialSessionChecked (guard w) = true → probe w = None →
    guard (run evs w) = guard w
    ∧ probe (run evs w) = None
    ∧ fetchCalls (run evs w) = fetchCalls w
    ∧ ∀ k : nat, sameView (instState k (run evs w)) (instState k w).
Proof.
  induction evs as [|e evs IH]; intros w Hi Hp; simpl.
  - repeat split; assumption.
  - destruct (completed_step w e Hi Hp) as (Hg & Hp' & Hf & Hv).
    assert (Hi' : hasInitialSessionChecked (guard (step w e)) = true)
      by (rewrite Hg; exact Hi).
    destruct (IH (step w e) Hi' Hp') as (Kg & Kp & Kf & Kv).
    split; [congruence|]. split; [exact Kp|]. split; [congruence|].
    intros k. apply (sameView_trans _ (instState k (step w e))); auto.
Qed.

(** X11 at a concrete input: after a probe that failed with a network
    error, three more providers mount; nothing is fetched again. *)
Lemma completed_process_is_frozen_witness :
  let w := run [Mount 0%nat;
                ProbeSettles 1700 epochIso (Rejected (ThrownError "offline"))]
             initialWorld in
  let w' := run [Mount 1%nat; Mount 0%nat; Resume 0%nat; Mount 2%nat] w in
  fetchCalls w' = 1%nat
  ∧ authError (instState 0 w') = Some "Erro de conexão: offline"
  ∧ currentUser (instState 0 w') = None.
Proof.
  intros w w'.
  destruct (completed_process_is_frozen
              [Mount 1%nat; Mount 0%nat; Resume 0%nat; Mount 2%nat] w
              eq_refl eq_refl) as (_ & _ & Hf & Hv).
  destruct (Hv 0%nat) as (Hu & _ & He & _).
  split; [exact Hf|]. split; [exact He | exact Hu].
Defined.

(** ** Every caller leaves the loading screen *)

Lemma isLoading_probeContinuation (now : Z) (nowIso : string)
    (r : Settled AuthResponse) (st : State) :
  isLoading (probeContinuation now nowIso r st) = isLoading st.
Proof. destruct r as [[[[[u|] tok]|] [e|]]|ex]; reflexivity. Qed.

Lemma In_removeFirst (i j : nat) (l : list nat) :
  In i l → i ≠ j → In i (removeFirst j l).
Proof.
  induction l as [|k l IH]; simpl; [tauto|].
  intros [->|H] Hne.
  - destruct (Nat.eqb_spec j i) as [E|E]; [congruence | left; reflexivity].
  - destruct (Nat.eqb j k); [exact H | right; apply IH; assumption].
Qed.

Lemma existsb_eqb_In (i : nat) (l : list nat) :
  In i l → existsb (Nat.eqb i) l = true.
Proof.
  intros H. apply existsb_exists. exists i. split; [exact H|].
  apply Nat.eqb_refl.
Qed.

(** A write to provider [j] that keeps or clears the loading flag
    cannot bring provider [i] back to the loading screen. *)
Lemma isLoading_updState (i j : nat) (f : State → State) (w : World) :
  (∀ st, isLoading st = false → isLoading (f st) = false) →
  isLoading (instState i w) = false →
  isLoading (instState i (updState j f w)) = false.
Proof.
  intros Hf H. destruct (decide (j = i)) as [->|Hne].
  - rewrite instState_updState_eq. apply Hf, H.
  - rewrite instState_updState_ne by exact Hne. exact H.
Qed.

Lemma settledOrPending_step (i : nat) (w : World) (e : Event) :
  settledOrPending i w → settledOrPending i (step w e).
Proof.
  unfold settledOrPending. intros H. destruct e as [j|now iso r|j]; simpl.
  - unfold checkSession.
    destruct (hasInitialSessionChecked (guard w));
      [|destruct (isCheckingSession (guard w));
        [|destruct (sessionCheckPromise (guard w))]]; simpl.
    + destruct H as [H|[H|H]]; [left|right; left|right; right]; try exact H.
      apply isLoading_updState; [intros st Hs; exact eq_refl | exact H].
    + destruct H as [H|[H|H]]; [left|right; left|right; right]; try exact H.
      apply isLoading_updState; [intros st Hs; exact eq_refl | exact H].
    + destruct H as [H|[[H H'] |H]]; [left|right; left|right; right];
        try exact H.
      split; [apply in_or_app; left; exact H | exact H'].
    + destruct H as [H|[[H H'] |H]]; [left|right; left|right; right].
      * apply (isLoading_updState i j (setAuthError None) w);
          [intros st Hs; exact Hs | exact H].
      * split; [apply in_or_app; left; exact H | discriminate].
      * exact H.
  - unfold probeSettles.
    destruct (probe w) as [k|] eqn:Hp; [|rewrite Hp; exact H]. simpl.
    destruct H as [H|[[H H'] |H]].
    + left. apply (isLoading_updState i k _ w); [|exact H].
      intros st Hs. rewrite isLoading_probeContinuation. exact Hs.
    + right; right. apply in_or_app. right. exact H.
    + right; right. apply in_or_app. left. exact H.
  - unfold resume. destruct (existsb (Nat.eqb j) (ready w)); [|exact H]. simpl.
    destruct (decide (j = i)) as [->|Hne].
    + left. exact (f_equal isLoading
             (instState_updState_eq i (setIsLoading false) w)).
    + destruct H as [H|[H|H]]; [left|right; left|right; right].
      * apply (isLoading_updState i j (setIsLoading false) w);
          [intros st Hs; exact eq_refl | exact H].
      * exact H.
      * apply In_removeFirst; [exact H | congruence].
Qed.

Lemma settledOrPending_run (i : nat) (evs : list Event) :
  ∀ w : World, settledOrPending i w → settledOrPending i (run evs w).
Proof.
  induction evs as [|e evs IH]; intros w H; simpl; [exact H|].
  apply IH, settledOrPending_step, H.
Qed.

Lemma settledOrPending_mount (i : nat) (w : World) :
  guardCoherent w → settledOrPending i (checkSession i w).
Proof.
  unfold guardCoherent, settledOrPending, checkSession. intros Hc.
  destruct (hasInitialSessionChecked (guard w));
    [|destruct (isCheckingSession (guard w))].
  - left. rewrite instState_updState_eq. reflexivity.
  - left. rewrite instState_updState_eq. reflexivity.
  - rewrite Hc. simpl. right; left.
    split; [apply in_or_app; right; left; reflexivity | discriminate].
Qed.

Lemma settledOrPending_finish (i : nat) (w : World) (now : Z)
    (nowIso : string) (r : Settled AuthResponse) :
  settledOrPending i w →
  isLoading (instState i (resume i (probeSettles now nowIso r w))) = false.
Proof.
  intros H.
  pose proof (settledOrPending_step i w (ProbeSettles now nowIso r) H) as H1.
  simpl in H1. set (w1 := probeSettles now nowIso r w) in *.
  assert (H2 : isLoading (instState i w1) = false ∨ In i (ready w1)).
  { destruct H1 as [H1|[[H1 Hp]|H1]]; [left; exact H1| |right; exact H1].
    exfalso. subst w1. unfold probeSettles in *.
    destruct (probe w) as [k|] eqn:E; simpl in *; [exact H1 | congruence]. }
  unfold resume. destruct H2 as [H2|H2].
  - destruct (existsb (Nat.eqb i) (ready w1)); [|exact H2].
    simpl. exact (f_equal isLoading
             (instState_updState_eq i (setIsLoading false) w1)).
  - rewrite existsb_eqb_In by exact H2. simpl.
    exact (f_equal isLoading
             (instState_updState_eq i (setIsLoading false) w1)).
Qed.

(** X12. Every provider that called [checkSession] leaves the loading
    screen: on every schedule that contains its call, once the retried
    session fetch has settled, with any answer or with an exception,
    and the caller has resumed, its loading flag is off. *)
Theorem every_caller_stops_loading :
  ∀ (evs : list Event) (i : nat) (now : Z) (nowIso : string)
    (r : Settled AuthResponse),
    In (Mount i) evs →
    isLoading
      (instState i
         (run (evs ++ [ProbeSettles now nowIso r; Resume i]) initialWorld))
    = false.
Proof.
  intros evs i now nowIso r Hin.
  destruct (in_split _ _ Hin) as (pre & post & ->).
  rewrite run_app.
  change (run [ProbeSettles now nowIso r; Resume i] ?w)
    with (resume i (probeSettles now nowIso r w)).
  apply settledOrPending_finish.
  rewrite run_app. simpl.
  apply settledOrPending_run, settledOrPending_mount.
  apply guardCoherent_run. reflexivity.
Qed.

(** X12 at a concrete input: the fetch throws something that is not an
    [Error]; provider 0 started the probe and provider 1 called during
    it. *)
Lemma every_caller_stops_loading_witness :
  let evs := [Mount 0%nat; Mount 1%nat] in
  let w := run (evs ++ [ProbeSettles 5 epochIso (Rejected ThrownOther);
                        Resume 0%nat]) initialWorld in
  isLoading (instState 0 w) = false
  ∧ authError (instState 0 w) = Some "Erro de conexão: Erro desconhecido".
Proof.
  intros evs w. split; [|reflexivity].
  apply (every_caller_stops_loading evs 0%nat 5 epochIso
           (Rejected ThrownOther)).
  left. reflexivity.
Defined.

(** ** The probe writes to one provider only *)

Lemma firstMountFrom_cons (o : option nat) (e : Event) (evs : list Event) :
  firstMountFrom o (e :: evs) = firstMountFrom (firstMountFrom o [e]) evs.
Proof.
  destruct o as [k|]; simpl.
  - destruct evs; reflexivity.
  - destruct e; simpl; try reflexivity. destruct evs; reflexivity.
Qed.

(** A write to provider [i] that keeps the user and the token keeps
    every provider other than the owner without user and token. *)
Lemma unowned_updState (o : option nat) (i : nat) (f : State → State)
    (w : World) :
  (∀ st, currentUser (f st) = currentUser st
         ∧ authToken (f st) = authToken st) →
  (∀ j : nat, o ≠ Some j →
     currentUser (instState j w) = None ∧ authToken (instState j w) = None) →
  ∀ j : nat, o ≠ Some j →
    currentUser (instState j (updState i f w)) = None
    ∧ authToken (instState j (updState i f w)) = None.
Proof.
  intros Hf H j Hj. destruct (decide (i = j)) as [->|Hne].
  - rewrite instState_updState_eq. destruct (Hf (instState j w)) as [-> ->].
    apply H, Hj.
  - rewrite instState_updState_ne by exact Hne. apply H, Hj.
Qed.

Lemma ownedBy_step (o : option nat) (w : World) (e : Event) :
  wellPhased w → ownedBy o w → ownedBy (firstMountFrom o [e]) (step w e).
Proof.
  intros Hw (Hnone & Hsome & Hprobe & Hrest).
  destruct e as [i|now iso r|i].
  - (* a call to checkSession *)
    destruct o as [k|].
    + assert (Hph : phase w ≠ Uninitialized) by (apply Hsome; eauto).
      assert (Hskip : hasInitialSessionChecked (guard w) = true
                      ∨ isCheckingSession (guard w) = true).
      { unfold phase in Hph.
        destruct (hasInitialSessionChecked (guard w)); [tauto|].
        destruct (isCheckingSession (guard w)); [tauto | contradiction]. }
      simpl. rewrite checkSession_skips by exact Hskip.
      split; [discriminate|]. split; [intros _; exact Hph|].
      split; [exact Hprobe|].
      apply unowned_updState; [intros st; split; reflexivity | exact Hrest].
    + assert (Hph : phase w = Uninitialized) by (apply Hnone; reflexivity).
      unfold wellPhased in Hw. rewrite Hph in Hw.
      destruct Hw as (_ & Hp & Hs).
      unfold phase in Hph. simpl. unfold checkSession.
      destruct (hasInitialSessionChecked (guard w)) eqn:Hi; [discriminate|].
      destruct (isCheckingSession (guard w)) eqn:Hc; [discriminate|].
      rewrite Hs.
      split; [discriminate|].
      split; [intros _; unfold phase; simpl; discriminate|].
      split; [simpl; intros k [= ->]; reflexivity|].
      intros j Hj.
      apply (unowned_updState None i (setAuthError None) w);
        [intros st; split; reflexivity | exact Hrest | discriminate].
  - (* the probe settles *)
    assert (Ho : firstMountFrom o [ProbeSettles now iso r] = o)
      by (destruct o; reflexivity).
    rewrite Ho. simpl. unfold probeSettles.
    destruct (probe w) as [k|] eqn:Hp.
    + specialize (Hprobe k eq_refl). subst o.
      split; [discriminate|].
      split; [intros _; unfold phase; simpl; discriminate|].
      split; [simpl; discriminate|].
      intros j Hj. specialize (Hrest j Hj).
      unfold instState in *. simpl.
      rewrite lookup_insert_ne by congruence. exact Hrest.
    + split; [exact Hnone|]. split; [exact Hsome|].
      split; [rewrite Hp; discriminate | exact Hrest].
  - (* a suspended caller resumes *)
    assert (Ho : firstMountFrom o [Resume i] = o) by (destruct o; reflexivity).
    rewrite Ho. simpl. unfold resume.
    destruct (existsb (Nat.eqb i) (ready w)).
    + split; [exact Hnone|]. split; [exact Hsome|]. split; [exact Hprobe|].
      apply (unowned_updState o i (setIsLoading false) w);
        [intros st; split; reflexivity | exact Hrest].
    + exact (conj Hnone (conj Hsome (conj Hprobe Hrest))).
Qed.

Lemma ownedBy_run (evs : list Event) :
  ∀ (o : option nat) (w : World),
    wellPhased w → ownedBy o w →
    ownedBy (firstMountFrom o evs) (run evs w).
Proof.
  induction evs as [|e evs IH]; intros o w Hw Ho.
  - destruct o; exact Ho.
  - rewrite firstMountFrom_cons. simpl.
    apply IH; [apply wellPhased_step, Hw | apply ownedBy_step; assumption].
Qed.

Lemma ownedBy_initialWorld : ownedBy None initialWorld.
Proof.
  split; [reflexivity|]. split; [intros [x Hx]; discriminate Hx|].
  split; [discriminate|]. intros j _. split; reflexivity.
Qed.

(** X13. The probe writes its result only to the provider whose
    [checkSession] call came first: on every schedule, every other
    provider, also one that called while the probe was in flight or
    after it, is left without user and without token. *)
Theorem probe_populates_first_caller_only :
  ∀ (evs : list Event) (j : nat),
    firstMount evs ≠ Some j →
    currentUser (instState j (run evs initialWorld)) = None
    ∧ authToken (instState j (run evs initialWorld)) = None.
Proof.
  intros evs j Hj.
  destruct (ownedBy_run evs None initialWorld wellPhased_initialWorld
              ownedBy_initialWorld) as (_ & _ & _ & H).
  apply H, Hj.
Qed.

(** X13 at a concrete input: provider 1 calls while the probe of
    provider 0 is in flight; alice's session reaches provider 0 only. *)
Lemma probe_populates_first_caller_only_witness :
  let evs := [Mount 0%nat; Mount 1%nat;
              ProbeSettles 1700 epochIso
                (Fulfilled {| session := Some aliceSession; error := None |});
              Resume 0%nat] in
  currentUser (instState 1 (run evs initialWorld)) = None
  ∧ authToken (instState 0 (run evs initialWorld)) = Some "tok-a".
Proof.
  intros evs.
  assert (H : firstMount evs ≠ Some 1%nat) by discriminate.
  split; [exact (proj1 (probe_populates_first_caller_only evs 1%nat H))
         | reflexivity].
Defined.

(** ** A stream of events that does not pause *)

Lemma play_restless (l : list Action) :
  ∀ (sb : Subscriber) (t : Z) (ev : string) (s : option Session),
    authStateChangeTimeout sb
      = Some {| deadline := t + 500; timerEvent := ev; timerSession := s |} →
    restless t l →
    view (play l sb) = view sb
    ∧ applied (play l sb) = applied sb
    ∧ is_Some (authStateChangeTimeout (play l sb)).
Proof.
  induction l as [|a l IH]; intros sb t ev s Htm Hq.
  - simpl. rewrite Htm. repeat split. eauto.
  - destruct a as [t' ev' s'|t' iso]; simpl in Hq.
    + apply (IH (onAuthStateChange t' ev' s' sb) t' ev' s' eq_refl Hq).
    + destruct Hq as [Hlt Hq]. simpl.
      rewrite (runTimers_early t' iso sb _ Htm) by (simpl; lia).
      apply (IH sb t ev s Htm Hq).
Qed.

(** X14. The delay restarts with every notification: as long as every
    timer phase comes less than 500 ms after the latest notification,
    no update is applied and the state is untouched, however many
    notifications arrive and however long the stream lasts; one
    callback stays scheduled. *)
Theorem unpaused_stream_applies_nothing :
  ∀ (l : list Action) (sb : Subscriber) (t : Z) (ev : string)
    (s : option Session),
    restless t l →
    let sb' := play (Notify t ev s :: l) sb in
    view sb' = view sb
    ∧ applied sb' = applied sb
    ∧ is_Some (authStateChangeTimeout sb').
Proof.
  intros l sb t ev s Hq sb'. subst sb'.
  apply (play_restless l (onAuthStateChange t ev s sb) t ev s eq_refl Hq).
Qed.

(** X14 at a concrete input: a sign-out followed by token refreshes
    every 400 ms; after 1.3 s alice is still signed in. *)
Lemma unpaused_stream_applies_nothing_witness :
  let l := [Tick 300 epochIso;
            Notify 400 "TOKEN_REFRESHED" None; Tick 700 epochIso;
            Notify 800 "TOKEN_REFRESHED" None; Tick 1100 epochIso;
            Notify 1200 "TOKEN_REFRESHED" None; Tick 1300 epochIso] in
  let sb := {| view := signedIn; authStateChangeTimeout := None;
               applied := 0 |} in
  view (play (Notify 0 "SIGNED_OUT" None :: l) sb) = signedIn
  ∧ applied (play (Notify 0 "SIGNED_OUT" None :: l) sb) = 0%nat.
Proof.
  intros l sb.
  assert (H : restless 0 l) by (subst l; simpl; repeat split; lia).
  destruct (unpaused_stream_applies_nothing l sb 0 "SIGNED_OUT" None H)
    as (Hv & Ha & _).
  split; [exact Hv | exact Ha].
Defined.
